(** * Verification of [check_systemd_units.py]

    A shallow embedding of the Nagios check [src/check_systemd_units.py]
    (InnoGames monitoring plugins) and proofs of the properties its
    specification states about it.

    Conventions of the embedding (Python 3 semantics):
    - a Python [str] is the list of its code points ([list N]); a [bytes]
      object is a [list byte];
    - a function that may raise returns a [result]: [Ok v] or [Raise e];
    - [subprocess.check_output] is the environment of the program: a function
      from the argument vector to either the captured output or the
      exception it raises ([CalledProcessError] on a non-zero exit status,
      [FileNotFoundError] when the program cannot be started);
      within one run a command has one answer;
    - [parse_args] is not embedded: the program starts from the namespace
      it returns, the record [Args];
    - the local variables a loop updates are the state of a left fold over
      the sequence the loop walks. *)

From Stdlib Require Import ZArith NArith List Lia Bool.
From Stdlib.Strings Require Import String Ascii Byte.
From Stdlib Require Import DecimalString DecimalZ DecimalPos.
From stdpp Require Import base option list gmap.

Local Open Scope Z_scope.

(** ** Python values *)

Abbreviation str := (list N).
Abbreviation bytes := (list byte).

(** A literal of the source text, as code points. *)
Definition lit (s : string) : str :=
  List.map N_of_ascii (list_ascii_of_string s).

(** A bytes literal. *)
Definition blit (s : string) : bytes := list_byte_of_string s.

Inductive exn : Type :=
  | CalledProcessError (text : str)   (* [text] is [str(error)] *)
  | IndexError
  | TypeError
  | ValueError
  | KeyError
  | UnicodeDecodeError
  | FileNotFoundError.                (* the program cannot be started *)

Inductive result (A : Type) : Type :=
  | Ok (a : A)
  | Raise (e : exn).

Arguments Ok {A} a.
Arguments Raise {A} e.

Definition bind {A B : Type} (r : result A) (k : A -> result B) : result B :=
  match r with
  | Ok a => k a
  | Raise e => Raise e
  end.

Notation "'let*' x ':=' r 'in' k" := (bind r (fun x => k))
  (at level 10, x pattern, r at level 100, k at level 200).

(** Left fold of a fallible loop body: the first exception ends the loop. *)
Fixpoint foldM {S A : Type} (body : S -> A -> result S) (st : S) (l : list A)
  : result S :=
  match l with
  | [] => Ok st
  | x :: l' => let* st' := body st x in foldM body st' l'
  end.

(** ** Built-in string operations the program calls *)

(** [str.isspace] on one code point: the Unicode white space set. *)
Definition isspace (c : N) : bool :=
  (((0x09 <=? c) && (c <=? 0x0D)) || ((0x1C <=? c) && (c <=? 0x20))
   || (c =? 0x85) || (c =? 0xA0) || (c =? 0x1680)
   || ((0x2000 <=? c) && (c <=? 0x200A))
   || (c =? 0x2028) || (c =? 0x2029) || (c =? 0x202F) || (c =? 0x205F)
   || (c =? 0x3000))%N.

(** The line boundaries of [str.splitlines]. *)
Definition is_linebreak (c : N) : bool :=
  (((0x0A <=? c) && (c <=? 0x0D)) || ((0x1C <=? c) && (c <=? 0x1E))
   || (c =? 0x85) || (c =? 0x2028) || (c =? 0x2029))%N.

Fixpoint lstrip (s : str) : str :=
  match s with
  | c :: s' => if isspace c then lstrip s' else s
  | [] => []
  end.

Definition rstrip (s : str) : str := rev (lstrip (rev s)).

(** [s.strip()] *)
Definition strip (s : str) : str := rstrip (lstrip s).

(** [s.split(None, maxsplit)]: [maxcount] is [None] when no limit is given.
    [word] is the field being read, if any.  When the limit is used up the
    rest of the text, from its first non-blank character, is one last field. *)
Fixpoint split_go (maxcount : option nat) (word : option str) (s : str)
  : list str :=
  match s with
  | [] => match word with Some w => [w] | None => [] end
  | c :: s' =>
      match word with
      | Some w =>
          if isspace c then w :: split_go maxcount None s'
          else split_go maxcount (Some (w ++ [c])) s'
      | None =>
          if isspace c then split_go maxcount None s'
          else
            match maxcount with
            | Some O => [s]
            | Some (S m) => split_go (Some m) (Some [c]) s'
            | None => split_go None (Some [c]) s'
            end
      end
  end.

Definition split (maxsplit : option nat) (s : str) : list str :=
  split_go maxsplit None s.

(** [s.split(sep, 1)[0]] for a one-character [sep]: the text before the
    first occurrence of [sep], the whole text when there is none. *)
Fixpoint before_sep (sep : N) (s : str) : str :=
  match s with
  | [] => []
  | c :: s' => if (c =? sep)%N then [] else c :: before_sep sep s'
  end.

(** [s.splitlines()]: [line] is the line being read, if any; a carriage
    return directly followed by a line feed is one boundary. *)
Fixpoint splitlines_go (line : option str) (s : str) : list str :=
  match s with
  | [] => match line with Some l => [l] | None => [] end
  | c :: s' =>
      let l := default [] line in
      if is_linebreak c then
        l :: match s' with
             | d :: s'' =>
                 if ((c =? 0x0D) && (d =? 0x0A))%N
                 then splitlines_go None s''
                 else splitlines_go None s'
             | [] => []
             end
      else splitlines_go (Some (l ++ [c])) s'
  end.

Definition splitlines (s : str) : list str := splitlines_go None s.

(** [s.endswith(suffix)] *)
Definition endswith (s suffix : str) : bool :=
  bool_decide (skipn (length s - length suffix)%nat s = suffix).

(** [s[:-n]] for [n > 0] *)
Definition drop_last (n : nat) (s : str) : str :=
  firstn (length s - n)%nat s.

(** [c in s] for a one-character [c] *)
Definition contains (c : N) (s : str) : bool := bool_decide (c ∈ s).

(** [s.replace(old, new)] for one-character [old] and [new] *)
Definition replace (old new : N) (s : str) : str :=
  List.map (fun c => if (c =? old)%N then new else c) s.

(** [l[i]] *)
Definition index {A : Type} (l : list A) (i : nat) : result A :=
  match l !! i with
  | Some x => Ok x
  | None => Raise IndexError
  end.

(** [int(b)] for a bytes object, base ten: blanks around, one optional
    sign, digits with single underscores between them.  (The limit some
    interpreters put on the number of digits is left out.) *)
Definition is_digit (c : N) : bool := ((0x30 <=? c) && (c <=? 0x39))%N.

Definition isspace_ascii (c : N) : bool :=
  (((0x09 <=? c) && (c <=? 0x0D)) || (c =? 0x20))%N.

Fixpoint digits_go (acc : Z) (after_underscore : bool) (s : list N)
  : option Z :=
  match s with
  | [] => if after_underscore then None else Some acc
  | c :: s' =>
      if is_digit c then digits_go (10 * acc + Z.of_N (c - 0x30)) false s'
      else if (c =? 0x5F)%N && negb after_underscore
           then digits_go acc true s'
           else None
  end.

Definition digits (s : list N) : option Z :=
  match s with
  | c :: _ => if is_digit c then digits_go 0 false s else None
  | [] => None
  end.

Fixpoint lstrip_ascii (s : list N) : list N :=
  match s with
  | c :: s' => if isspace_ascii c then lstrip_ascii s' else s
  | [] => []
  end.

Definition int (b : bytes) : result Z :=
  let s := rev (lstrip_ascii (rev (lstrip_ascii (List.map Byte.to_N b)))) in
  let '(negative, body) :=
    match s with
    | 0x2B%N :: r => (false, r)
    | 0x2D%N :: r => (true, r)
    | _ => (false, s)
    end in
  match digits body with
  | Some n => Ok (if negative then - n else n)
  | None => Raise ValueError
  end.

(** [b.decode()]: strict UTF-8.  The shortest form only, no surrogates,
    nothing above U+10FFFF. *)
Definition is_cont (b : N) : bool := ((0x80 <=? b) && (b <=? 0xBF))%N.

Definition low6 (b : N) : N := N.land b 0x3F.

Fixpoint utf8 (s : list N) : result str :=
  match s with
  | [] => Ok []
  | b0 :: s1 =>
      if (b0 <? 0x80)%N then
        let* r := utf8 s1 in Ok (b0 :: r)
      else if ((0xC2 <=? b0) && (b0 <=? 0xDF))%N then
        match s1 with
        | b1 :: s2 =>
            if is_cont b1 then
              let* r := utf8 s2 in
              Ok (N.lor (N.shiftl (N.land b0 0x1F) 6) (low6 b1) :: r)
            else Raise UnicodeDecodeError
        | _ => Raise UnicodeDecodeError
        end
      else if ((0xE0 <=? b0) && (b0 <=? 0xEF))%N then
        match s1 with
        | b1 :: b2 :: s3 =>
            let lo := if (b0 =? 0xE0)%N then 0xA0%N else 0x80%N in
            let hi := if (b0 =? 0xED)%N then 0x9F%N else 0xBF%N in
            if ((lo <=? b1) && (b1 <=? hi))%N && is_cont b2 then
              let* r := utf8 s3 in
              Ok (N.lor (N.shiftl (N.land b0 0x0F) 12)
                    (N.lor (N.shiftl (low6 b1) 6) (low6 b2)) :: r)
            else Raise UnicodeDecodeError
        | _ => Raise UnicodeDecodeError
        end
      else if ((0xF0 <=? b0) && (b0 <=? 0xF4))%N then
        match s1 with
        | b1 :: b2 :: b3 :: s4 =>
            let lo := if (b0 =? 0xF0)%N then 0x90%N else 0x80%N in
            let hi := if (b0 =? 0xF4)%N then 0x8F%N else 0xBF%N in
            if ((lo <=? b1) && (b1 <=? hi))%N && is_cont b2 && is_cont b3 then
              let* r := utf8 s4 in
              Ok (N.lor (N.shiftl (N.land b0 0x07) 18)
                    (N.lor (N.shiftl (low6 b1) 12)
                       (N.lor (N.shiftl (low6 b2) 6) (low6 b3))) :: r)
            else Raise UnicodeDecodeError
        | _ => Raise UnicodeDecodeError
        end
      else Raise UnicodeDecodeError
  end.

Definition decode (b : bytes) : result str := utf8 (List.map Byte.to_N b).

(** A character of the source text, as a code point. *)
Definition chr (a : ascii) : N := N_of_ascii a.

(** ** The program *)

(** [class Problem]: its six attributes, from more important to less.
    [value] is the integer the class binds to each. *)
Inductive Problem : Type :=
  | failed
  | activating_auto_restart
  | not_loaded_but_not_inactive
  | not_loaded_but_not_dead
  | dead
  | not_loaded.

Definition value (p : Problem) : Z :=
  match p with
  | failed => 0
  | activating_auto_restart => 1
  | not_loaded_but_not_inactive => 2
  | not_loaded_but_not_dead => 3
  | dead => 4
  | not_loaded => 5
  end.

#[global] Instance Problem_eq_dec : EqDecision Problem.
Proof. solve_decision. Defined.

(** The values [vars(Problem)] holds: the integers of the six problems,
    and beside them the strings and descriptors every class carries. *)
Inductive pyobj : Type :=
  | PyInt (i : Z)
  | PyStr (s : str)
  | PyDescriptor.

(** [vars(Problem).items()], in definition order.  (An interpreter may add
    entries of its own to a class; the dictionary built below is read at the
    six values only.) *)
Definition vars_Problem : list (str * pyobj) :=
  [ (lit "__module__", PyStr (lit "__main__"));
    (lit "__doc__",
     PyStr (lit "Enum for problems that can apply to the units"));
    (lit "failed", PyInt (value failed));
    (lit "activating_auto_restart", PyInt (value activating_auto_restart));
    (lit "not_loaded_but_not_inactive",
     PyInt (value not_loaded_but_not_inactive));
    (lit "not_loaded_but_not_dead", PyInt (value not_loaded_but_not_dead));
    (lit "dead", PyInt (value dead));
    (lit "not_loaded", PyInt (value not_loaded));
    (lit "__dict__", PyDescriptor);
    (lit "__weakref__", PyDescriptor) ].

(** The namespace [parse_args] returns. *)
Record Args : Type := {
  check_all : bool;
  critical_units : list str;
  ignored_units : list str
}.

(** A finding: the tuple [(problem, unit_name)] the lists collect. *)
Abbreviation finding := (Problem * str)%type.

Definition match_unit (pattern unit : str) : bool :=
  if endswith pattern (lit "@*") && contains (chr "@") unit then
    bool_decide
      (drop_last (length (lit "@*")) pattern = before_sep (chr "@") unit)
  else bool_decide (pattern = unit).

(** [any(match_unit(p, unit_name) for p in patterns)] *)
Definition any_match (patterns : list str) (unit_name : str) : bool :=
  existsb (fun p => match_unit p unit_name) patterns.

(** The dictionary [problem_names] of [get_message]. *)
Definition problem_names : gmap Z str :=
  foldl (fun names '(k, v) =>
           match v with
           | PyInt i => <[i := replace (chr "_") (chr " ") k]> names
           | _ => names
           end)
        ∅ vars_Problem.

(** [d[k]] *)
Definition getitem (d : gmap Z str) (k : Z) : result str :=
  match d !! k with
  | Some v => Ok v
  | None => Raise KeyError
  end.

(** The body of the loop of [get_message], on [(message, last_problem)]. *)
Definition get_message_step (st : str * option Problem) (f : finding)
  : result (str * option Problem) :=
  let '(message, last_problem) := st in
  let '(problem, unit) := f in
  let* (message, last_problem) :=
    if negb (bool_decide (Some problem = last_problem)) then
      let* label := getitem problem_names (value problem) in
      Ok (message ++ (label ++ lit ": "), Some problem)
    else Ok (message, last_problem) in
  Ok (message ++ (unit ++ lit " "), last_problem).

Definition get_message (problems : list finding) : result str :=
  let* (message, _) := foldM get_message_step ([], None) problems in
  Ok message.

(** The command line of [get_exit_code]:
    ['systemctl show -p ExecMainStatus {}'.format(unit_name)]. *)
Definition show_command (unit_name : str) : str :=
  lit "systemctl show -p ExecMainStatus " ++ unit_name.

Section Program.

(** [subprocess.check_output], applied to an argument vector. *)
Variable check_output : list str -> result bytes.

Definition get_exit_code (unit_name : str) : result Z :=
  let command := show_command unit_name in
  match check_output (split None command) with
  | Raise (CalledProcessError _) => Ok (-1)
  | Raise e => Raise e
  | Ok output => int (skipn (length (lit "ExecMainStatus=")) output)
  end.

Definition check_unit (unit_name serv_load serv_active serv_sub : str)
  : result (option Problem) :=
  if negb (bool_decide (serv_load = lit "loaded")) then
    if negb (bool_decide (serv_active = lit "inactive")) then
      Ok (Some not_loaded_but_not_inactive)
    else if negb (bool_decide (serv_sub = lit "dead")) then
      Ok (Some not_loaded_but_not_dead)
    else Ok (Some not_loaded)
  else if bool_decide (serv_active = lit "failed") then Ok (Some failed)
  else if bool_decide (serv_sub = lit "auto-restart") then
    let* code := get_exit_code unit_name in
    if negb (code =? 0) then Ok (Some activating_auto_restart)
    else Ok None
  else if bool_decide (serv_sub = lit "dead") then Ok (Some dead)
  else if bool_decide (serv_sub = lit "failed") then Ok (Some failed)
  else Ok None.

(** [check_unit] called on an unpacked list: the call needs exactly four
    arguments. *)
Definition check_unit_star (fields : list str) : result (option Problem) :=
  match fields with
  | [unit_name; serv_load; serv_active; serv_sub] =>
      check_unit unit_name serv_load serv_active serv_sub
  | _ => Raise TypeError
  end.

(** The body of the loop of [process], on [(criticals, warnings)]. *)
Definition process_line (args : Args) (st : list finding * list finding)
  (line : str) : result (list finding * list finding) :=
  let '(criticals, warnings) := st in
  let unit_split := split (Some 4%nat) (strip line) in
  let* unit_name := index unit_split 0 in
  let* problem := check_unit_star (firstn 4 unit_split) in
  match problem with
  | None => Ok st
  | Some problem =>
      let is_critical := any_match (critical_units args) unit_name in
      if negb is_critical && (value problem >=? value dead) then Ok st
      else if is_critical && (value problem <? value dead) then
        Ok (criticals ++ [(problem, unit_name)], warnings)
      else Ok (criticals, warnings ++ [(problem, unit_name)])
  end.

Definition process (output : str) (args : Args)
  : result (list finding * list finding) :=
  foldM (process_line args) ([], []) (splitlines output).

(** The command line [main] builds. *)
Definition list_units_command (args : Args) : str :=
  let command := lit "systemctl --all --no-legend --no-pager list-units" in
  if negb (check_all args) then
    foldl (fun command unit => command ++ (lit " " ++ unit)) command
      (critical_units args)
  else command.

(** [main], given the parsed arguments: the lines it prints and the status
    it exits with, or the exception that ends it. *)
Definition main (args : Args) : result (list str * Z) :=
  let command := list_units_command args in
  match (let* b := check_output (split None command) in decode b) with
  | Raise (CalledProcessError text) => Ok ([lit "UNKNOWN: " ++ text], 3)
  | Raise e => Raise e
  | Ok output =>
      let* (criticals, warnings) := process output args in
      match criticals, warnings with
      | _ :: _, _ =>
          let* message := get_message (criticals ++ warnings) in
          Ok ([lit "CRITICAL: " ++ message], 2)
      | [], _ :: _ =>
          let* message := get_message warnings in
          Ok ([lit "WARNING: " ++ message], 1)
      | [], [] => Ok ([lit "OK"], 0)
      end
  end.

End Program.

(** * Definitions of the specification and of the examples *)

(** The lookup of the examples: every query answers with the given text. *)
Definition answering (out : string) : list str -> result bytes :=
  fun _ => Ok (blit out).

(** The lookup of the examples whose every query fails. *)
Definition failing (text : string) : list str -> result bytes :=
  fun _ => Raise (CalledProcessError (lit text)).

(** The line feed. *)
Definition nl : string := String (ascii_of_nat 10) EmptyString.

(** The category names of the specification's taxonomy. *)
Definition category_name (p : Problem) : string :=
  match p with
  | failed => "failed"
  | activating_auto_restart => "activating_auto_restart"
  | not_loaded_but_not_inactive => "not_loaded_but_not_inactive"
  | not_loaded_but_not_dead => "not_loaded_but_not_dead"
  | dead => "dead"
  | not_loaded => "not_loaded"
  end.

(** The label of the specification: the category name with its separators
    rendered as spaces. *)
Definition label (p : Problem) : str :=
  replace (chr "_") (chr " ") (lit (category_name p)).

(** The walk of the specification: a label whenever the problem differs
    from the one of the entry before, then the unit name and one space. *)
Fixpoint walk (previous : option Problem) (findings : list finding) : str :=
  match findings with
  | [] => []
  | (problem, unit) :: rest =>
      (if decide (previous = Some problem) then []
       else label problem ++ lit ": ")
      ++ unit ++ lit " " ++ walk (Some problem) rest
  end.

(** The white-space delimited fields of a line, all of them. *)
Definition fields (line : str) : list str := split None line.

(** A white space character. *)
Definition blank (c : N) : Prop := isspace c = true.

(** The number of fields [split_go] has begun and not yet yielded. *)
Definition pending (word : option str) : nat :=
  match word with Some _ => 1 | None => 0 end.

(** The aggregation policy of the specification, for a unit that is
    critical-designated or not and has the given problem. *)
Inductive verdict : Type := Skipped | ToCriticals | ToWarnings.

Definition policy (critical : bool) (p : Problem) : verdict :=
  match critical, value dead <=? value p with
  | false, true => Skipped
  | true, false => ToCriticals
  | true, true | false, false => ToWarnings
  end.

(** The two lists after a unit with the given classification. *)
Definition place (args : Args) (st : list finding * list finding)
    (unit_name : str) (problem : option Problem)
  : list finding * list finding :=
  match problem with
  | None => st
  | Some p =>
      match policy (any_match (critical_units args) unit_name) p with
      | Skipped => st
      | ToCriticals => (st.1 ++ [(p, unit_name)], st.2)
      | ToWarnings => (st.1, st.2 ++ [(p, unit_name)])
      end
  end.

(** One turn of the loop, read off the fields of the line. *)
Definition process_fields (sys : list str -> result bytes) (args : Args)
    (st : list finding * list finding) (fs : list str)
  : result (list finding * list finding) :=
  match fs with
  | [] => Raise IndexError
  | [unit_name; serv_load; serv_active; serv_sub] =>
      let* problem := check_unit sys unit_name serv_load serv_active serv_sub in
      Ok (place args st unit_name problem)
  | _ => Raise TypeError
  end.

(** A unit record with its classification, and the findings of a list of
    them, in order. *)
Definition findings_of (records : list (str * option Problem))
  : list finding :=
  omap (fun record => (fun p => (p, record.1)) <$> record.2) records.

(** The line holds the record: its first four fields are the unit name and
    three states that [check_unit] classifies as the record says. *)
Definition classified (sys : list str -> result bytes) (line : str)
    (record : str * option Problem) : Prop :=
  exists load active sub,
    take 4 (fields line) = [record.1; load; active; sub]
    /\ check_unit sys record.1 load active sub = Ok record.2.

(** The three cases of the policy, on a finding. *)
Definition to_criticals (args : Args) (f : finding) : bool :=
  any_match (critical_units args) f.2 && (value f.1 <? value dead).

Definition to_warnings (args : Args) (f : finding) : bool :=
  (any_match (critical_units args) f.2 && (value dead <=? value f.1))
  || (negb (any_match (critical_units args) f.2)
      && (value f.1 <? value dead)).

Definition dropped (args : Args) (f : finding) : bool :=
  negb (any_match (critical_units args) f.2) && (value dead <=? value f.1).

(** An inventory and arguments for the examples. *)
Definition inventory_demo : string :=
  "a.service loaded active dead" ++ nl
  ++ "b@1.service loaded failed failed" ++ nl
  ++ "c.service not-found inactive dead" ++ nl
  ++ "b@2.service loaded inactive dead Instance 2 of b" ++ nl
  ++ "d.service loaded active running" ++ nl.

Definition args_demo : Args :=
  {| check_all := true; critical_units := [lit "b@*"]; ignored_units := [] |}.

(** A word: a text that is not empty and holds no white space. *)
Definition token (s : str) : Prop :=
  s <> [] /\ Forall (fun c => isspace c = false) s.

(** The argument vector of the listing when no unit is named. *)
Definition list_units_argv : list str :=
  [lit "systemctl"; lit "--all"; lit "--no-legend"; lit "--no-pager";
   lit "list-units"].




(** What holds of a finding in [criticals]: its unit is one word that
    matches a critical pattern, and its problem ranks before [dead]. *)
Definition critical_finding (args : Args) (f : finding) : Prop :=
  token f.2 /\ any_match (critical_units args) f.2 = true
  /\ value f.1 < value dead.

(** What holds of a finding in [warnings]: its unit is one word, and it
    either matches a critical pattern with a problem ranked [dead] or
    after, or matches none with a problem ranked before [dead]. *)
Definition warning_finding (args : Args) (f : finding) : Prop :=
  token f.2
  /\ ((any_match (critical_units args) f.2 = true
       /\ value dead <= value f.1)
      \/ (any_match (critical_units args) f.2 = false
          /\ value f.1 < value dead)).

(** The environment fails with [CalledProcessError] only, as
    [check_output] does when the command exits with a status. *)
Definition fails_by_status (sys : list str -> result bytes) : Prop :=
  forall command e, sys command = Raise e ->
                    exists text, e = CalledProcessError text.

(** * Properties *)

Lemma foldM_cons {S A : Type} (body : S -> A -> result S) st x l :
  foldM body st (x :: l) = bind (body st x) (fun st' => foldM body st' l).
Proof. reflexivity. Qed.

(** ** The classifier *)

Section Classifier.

Variable sys : list str -> result bytes.
Variables unit_name serv_load serv_active serv_sub : str.

Local Abbreviation classified :=
  (check_unit sys unit_name serv_load serv_active serv_sub).

Lemma check_unit_not_loaded :
  serv_load <> lit "loaded" ->
  classified =
    Ok (Some (if bool_decide (serv_active = lit "inactive") then
                if bool_decide (serv_sub = lit "dead") then not_loaded
                else not_loaded_but_not_dead
              else not_loaded_but_not_inactive)).
Proof.
  intros Hload. unfold check_unit.
  rewrite (bool_decide_eq_false_2 _ Hload). simpl.
  repeat case_bool_decide; reflexivity.
Qed.

Lemma check_unit_active_failed :
  serv_load = lit "loaded" -> serv_active = lit "failed" ->
  classified = Ok (Some failed).
Proof. intros -> ->. reflexivity. Qed.

Lemma check_unit_auto_restart :
  serv_load = lit "loaded" -> serv_active <> lit "failed" ->
  serv_sub = lit "auto-restart" ->
  classified =
    let* code := get_exit_code sys unit_name in
    Ok (if code =? 0 then None else Some activating_auto_restart).
Proof.
  intros -> Hactive ->. unfold check_unit.
  rewrite (bool_decide_eq_false_2 _ Hactive). simpl.
  destruct (get_exit_code sys unit_name) as [code|e]; simpl; [|reflexivity].
  destruct (code =? 0); reflexivity.
Qed.

Lemma check_unit_other_sub :
  serv_load = lit "loaded" -> serv_active <> lit "failed" ->
  serv_sub <> lit "auto-restart" ->
  classified =
    Ok (if bool_decide (serv_sub = lit "dead") then Some dead
        else if bool_decide (serv_sub = lit "failed") then Some failed
        else None).
Proof.
  intros -> Hactive Hsub. unfold check_unit.
  rewrite (bool_decide_eq_false_2 _ Hactive).
  rewrite (bool_decide_eq_false_2 _ Hsub). simpl.
  repeat case_bool_decide; reflexivity.
Qed.

End Classifier.

(** C1.  [check_unit] follows the ordered rule table, first match wins.
    A unit that is not loaded is [not_loaded_but_not_inactive] when its
    active state is not "inactive", else [not_loaded_but_not_dead] when its
    sub-state is not "dead", else [not_loaded].  A loaded unit is [failed]
    when its active state is "failed"; else, in sub-state "auto-restart", it
    is [activating_auto_restart] exactly when the exit code looked up is not
    zero and has no problem otherwise; else it is [dead] in sub-state "dead",
    [failed] in sub-state "failed", and has no problem in any other.  The
    rows cover every triple, so whenever the lookup returns, so does the
    classification, with one problem or none. *)
Theorem check_unit_rule_table :
  forall (sys : list str -> result bytes) (name load active sub : str),
    let classified := check_unit sys name load active sub in
    (load <> lit "loaded" -> active <> lit "inactive" ->
     classified = Ok (Some not_loaded_but_not_inactive))
    /\ (load <> lit "loaded" -> active = lit "inactive" ->
        sub <> lit "dead" ->
        classified = Ok (Some not_loaded_but_not_dead))
    /\ (load <> lit "loaded" -> active = lit "inactive" ->
        sub = lit "dead" ->
        classified = Ok (Some not_loaded))
    /\ (load = lit "loaded" -> active = lit "failed" ->
        classified = Ok (Some failed))
    /\ (load = lit "loaded" -> active <> lit "failed" ->
        sub = lit "auto-restart" ->
        forall code, get_exit_code sys name = Ok code ->
          (code <> 0 -> classified = Ok (Some activating_auto_restart))
          /\ (code = 0 -> classified = Ok None))
    /\ (load = lit "loaded" -> active <> lit "failed" ->
        sub = lit "dead" ->
        classified = Ok (Some dead))
    /\ (load = lit "loaded" -> active <> lit "failed" ->
        sub = lit "failed" ->
        classified = Ok (Some failed))
    /\ (load = lit "loaded" -> active <> lit "failed" ->
        sub <> lit "auto-restart" -> sub <> lit "dead" ->
        sub <> lit "failed" ->
        classified = Ok None)
    /\ (forall code, get_exit_code sys name = Ok code ->
        exists r : option Problem, classified = Ok r).
Proof.
  intros sys name load active sub classified. subst classified.
  repeat split.
  - intros Hl Ha. rewrite check_unit_not_loaded by assumption.
    rewrite (bool_decide_eq_false_2 _ Ha). reflexivity.
  - intros Hl -> Hs. rewrite check_unit_not_loaded by assumption.
    rewrite (bool_decide_eq_false_2 _ Hs). reflexivity.
  - intros Hl -> ->. rewrite check_unit_not_loaded by assumption.
    reflexivity.
  - intros. apply check_unit_active_failed; assumption.
  - intros Hnz. rewrite check_unit_auto_restart by assumption.
    match goal with H : get_exit_code _ _ = _ |- _ => rewrite H end.
    simpl. apply Z.eqb_neq in Hnz. rewrite Hnz. reflexivity.
  - intros ->. rewrite check_unit_auto_restart by assumption.
    match goal with H : get_exit_code _ _ = _ |- _ => rewrite H end.
    reflexivity.
  - intros Hl Ha ->. rewrite check_unit_other_sub; try assumption;
      [reflexivity | discriminate].
  - intros Hl Ha ->. rewrite check_unit_other_sub; try assumption;
      [reflexivity | discriminate].
  - intros Hl Ha Hs Hd Hf. rewrite check_unit_other_sub by assumption.
    rewrite (bool_decide_eq_false_2 _ Hd), (bool_decide_eq_false_2 _ Hf).
    reflexivity.
  - intros code Hcode.
    destruct (decide (load = lit "loaded")) as [Hl|Hl].
    + destruct (decide (active = lit "failed")) as [Ha|Ha].
      * rewrite check_unit_active_failed by assumption. eauto.
      * destruct (decide (sub = lit "auto-restart")) as [Hs|Hs].
        -- rewrite check_unit_auto_restart by assumption.
           rewrite Hcode. simpl. eauto.
        -- rewrite check_unit_other_sub by assumption. eauto.
    + rewrite check_unit_not_loaded by assumption. eauto.
Qed.

Example check_unit_crash_loop :
  check_unit (answering ("ExecMainStatus=1" ++ nl)) (lit "a.service")
    (lit "loaded") (lit "activating") (lit "auto-restart")
  = Ok (Some activating_auto_restart).
Proof. reflexivity. Qed.

Example check_unit_clean_restart :
  check_unit (answering ("ExecMainStatus=0" ++ nl)) (lit "a.service")
    (lit "loaded") (lit "activating") (lit "auto-restart")
  = Ok None.
Proof. reflexivity. Qed.

(** C10.  The classification uses the lookup only through the test of its
    result against zero: two environments whose lookups for the unit both
    return, and agree on being zero, give the same classification; and when
    the unit is not loaded, or its active state is "failed", or its
    sub-state is not "auto-restart", the classification is the same in any
    two environments, whatever their lookups do. *)
Theorem check_unit_lookup_zero_test_only :
  forall (sys1 sys2 : list str -> result bytes)
         (name load active sub : str),
    (forall code1 code2,
        get_exit_code sys1 name = Ok code1 ->
        get_exit_code sys2 name = Ok code2 ->
        (code1 = 0 <-> code2 = 0) ->
        check_unit sys1 name load active sub
        = check_unit sys2 name load active sub)
    /\ (load <> lit "loaded" \/ active = lit "failed"
         \/ sub <> lit "auto-restart" ->
        check_unit sys1 name load active sub
        = check_unit sys2 name load active sub).
Proof.
  intros sys1 sys2 name load active sub.
  assert (Hfree : load <> lit "loaded" \/ active = lit "failed"
                  \/ sub <> lit "auto-restart" ->
                  check_unit sys1 name load active sub
                  = check_unit sys2 name load active sub).
  { intros Hcase.
    destruct (decide (load = lit "loaded")) as [Hl|Hl];
      [|rewrite !check_unit_not_loaded by assumption; reflexivity].
    destruct (decide (active = lit "failed")) as [Ha|Ha];
      [rewrite !check_unit_active_failed by assumption; reflexivity|].
    destruct (decide (sub = lit "auto-restart")) as [Hs|Hs];
      [tauto|].
    rewrite !check_unit_other_sub by assumption. reflexivity. }
  split; [|exact Hfree].
  intros code1 code2 H1 H2 Hzero.
  destruct (decide (load = lit "loaded")) as [Hl|Hl]; [|auto].
  destruct (decide (active = lit "failed")) as [Ha|Ha]; [auto|].
  destruct (decide (sub = lit "auto-restart")) as [Hs|Hs]; [|auto].
  rewrite !check_unit_auto_restart by assumption.
  rewrite H1, H2. simpl.
  destruct (Z.eqb_spec code1 0) as [E1|E1], (Z.eqb_spec code2 0) as [E2|E2];
    try reflexivity; tauto.
Qed.

Example check_unit_codes_1_and_137 :
  check_unit (answering ("ExecMainStatus=1" ++ nl)) (lit "a.service")
    (lit "loaded") (lit "activating") (lit "auto-restart")
  = check_unit (answering ("ExecMainStatus=137" ++ nl)) (lit "a.service")
      (lit "loaded") (lit "activating") (lit "auto-restart").
Proof. reflexivity. Qed.

(** ** The exit code lookup *)

Lemma get_exit_code_failure (sys : list str -> result bytes) name text :
  sys (split None (show_command name)) = Raise (CalledProcessError text) ->
  get_exit_code sys name = Ok (-1).
Proof. intros H. unfold get_exit_code. simpl. rewrite H. reflexivity. Qed.

(** C7, as amended.  When the query for the exit status of a unit exits
    with a status that is not zero, so that [check_output] raises
    [CalledProcessError], the lookup returns -1 and raises nothing; a loaded
    unit in sub-state "auto-restart" (its active state not "failed", so that
    the lookup is made) is then classified [activating_auto_restart]; and
    the loop of [process] goes on with that finding appended to one of its
    two lists.  (Only that exception is caught: see [lookup_not_started].) *)
Theorem failed_lookup_reports_auto_restart :
  forall (sys : list str -> result bytes) (name text : str),
    sys (split None (show_command name)) = Raise (CalledProcessError text) ->
    get_exit_code sys name = Ok (-1)
    /\ -1 <> 0
    /\ (forall active, active <> lit "failed" ->
        check_unit sys name (lit "loaded") active (lit "auto-restart")
        = Ok (Some activating_auto_restart))
    /\ (forall args criticals warnings line active rest,
        active <> lit "failed" ->
        split (Some 4%nat) (strip line)
        = name :: lit "loaded" :: active :: lit "auto-restart" :: rest ->
        process_line sys args (criticals, warnings) line
        = Ok (if any_match (critical_units args) name
              then (criticals ++ [(activating_auto_restart, name)], warnings)
              else (criticals, warnings ++ [(activating_auto_restart, name)]))).
Proof.
  intros sys name text Hfail.
  pose proof (get_exit_code_failure sys name text Hfail) as Hcode.
  assert (Hunit : forall active, active <> lit "failed" ->
            check_unit sys name (lit "loaded") active (lit "auto-restart")
            = Ok (Some activating_auto_restart)).
  { intros active Ha. rewrite check_unit_auto_restart by auto.
    rewrite Hcode. reflexivity. }
  repeat split; [assumption | discriminate | assumption |].
  intros args criticals warnings line active rest Ha Hsplit.
  unfold process_line. rewrite Hsplit. simpl.
  rewrite (Hunit active Ha). simpl.
  destruct (any_match _ _); reflexivity.
Qed.

Lemma failed_lookup_reports_auto_restart_witness :
  get_exit_code (failing "Command returned non-zero exit status 1.")
    (lit "a.service") = Ok (-1).
Proof.
  exact (proj1 (failed_lookup_reports_auto_restart
                  (failing "Command returned non-zero exit status 1.")
                  (lit "a.service")
                  (lit "Command returned non-zero exit status 1.")
                  eq_refl)).
Defined.

(** C7, as first stated, fails: when the query cannot be started the lookup
    raises, no sentinel is returned, and the exception ends [process]. *)
Lemma lookup_not_started :
  let sys : list str -> result bytes := fun _ => Raise FileNotFoundError in
  get_exit_code sys (lit "a.service") = Raise FileNotFoundError
  /\ get_exit_code sys (lit "a.service") <> Ok (-1)
  /\ process sys (lit "a.service loaded activating auto-restart")
       {| check_all := true; critical_units := []; ignored_units := [] |}
     = Raise FileNotFoundError.
Proof. repeat split. discriminate. Qed.

Example process_line_failed_lookup :
  process_line (failing "Command returned non-zero exit status 1.")
    {| check_all := true; critical_units := []; ignored_units := [] |}
    ([], []) (lit "a.service loaded activating auto-restart A service")
  = Ok ([], [(activating_auto_restart, lit "a.service")]).
Proof. reflexivity. Qed.

(** ** The pattern matcher *)

Lemma endswith_app (stem suffix : str) : endswith (stem ++ suffix) suffix = true.
Proof.
  unfold endswith. apply bool_decide_eq_true_2.
  rewrite length_app.
  replace (length stem + length suffix - length suffix)%nat
    with (length stem) by lia.
  apply drop_app_length.
Qed.

Lemma endswith_true (s suffix : str) :
  endswith s suffix = true <-> exists stem, s = stem ++ suffix.
Proof.
  split.
  - unfold endswith. intros H. apply bool_decide_eq_true_1 in H.
    remember (length s - length suffix)%nat as n eqn:Hn.
    exists (take n s). rewrite <- H. symmetry. apply take_drop.
  - intros [stem ->]. apply endswith_app.
Qed.

Lemma drop_last_app (stem suffix : str) :
  drop_last (length suffix) (stem ++ suffix) = stem.
Proof.
  unfold drop_last. rewrite length_app.
  replace (length stem + length suffix - length suffix)%nat
    with (length stem) by lia.
  apply take_app_length.
Qed.

Lemma contains_true (c : N) (s : str) : contains c s = true <-> c ∈ s.
Proof. unfold contains. apply bool_decide_eq_true. Qed.

Lemma before_sep_first (sep : N) (pre inst : str) :
  sep ∉ pre -> before_sep sep (pre ++ sep :: inst) = pre.
Proof.
  induction pre as [|c pre IH]; intros Hnotin; simpl.
  - rewrite N.eqb_refl. reflexivity.
  - apply not_elem_of_cons in Hnotin as [Hne Hnotin].
    destruct (N.eqb_spec c sep) as [->|_]; [congruence|].
    rewrite IH by assumption. reflexivity.
Qed.

Lemma before_sep_notin (sep : N) (s : str) : sep ∉ before_sep sep s.
Proof.
  induction s as [|c s IH]; simpl.
  - apply not_elem_of_nil.
  - destruct (N.eqb_spec c sep) as [->|Hne]; [apply not_elem_of_nil|].
    apply not_elem_of_cons. split; [congruence | assumption].
Qed.

Lemma before_sep_split (sep : N) (s : str) :
  sep ∈ s -> exists inst, s = before_sep sep s ++ sep :: inst.
Proof.
  induction s as [|c s IH]; intros Hin; simpl.
  - apply elem_of_nil in Hin. contradiction.
  - destruct (N.eqb_spec c sep) as [->|Hne]; [eauto|].
    apply elem_of_cons in Hin as [->|Hin]; [congruence|].
    destruct (IH Hin) as [inst Hinst]. exists inst. simpl. congruence.
Qed.

Lemma match_unit_template (stem unit : str) :
  chr "@" ∈ unit ->
  match_unit (stem ++ lit "@*") unit
  = bool_decide (stem = before_sep (chr "@") unit).
Proof.
  intros Hin. unfold match_unit.
  rewrite endswith_app, (proj2 (contains_true _ _) Hin). simpl andb. cbv iota.
  rewrite drop_last_app. reflexivity.
Qed.

Lemma match_unit_exact (pattern unit : str) :
  endswith pattern (lit "@*") = false \/ chr "@" ∉ unit ->
  match_unit pattern unit = bool_decide (pattern = unit).
Proof.
  intros Hcase. unfold match_unit.
  destruct (endswith pattern (lit "@*")) eqn:Hend; [|reflexivity].
  destruct Hcase as [Hcase|Hnotin]; [discriminate|].
  destruct (contains (chr "@") unit) eqn:Hc; [|reflexivity].
  apply contains_true in Hc. contradiction.
Qed.

(** C4.  A pattern [stem ++ "@*"] matches a unit name that contains "@"
    exactly when the name is [stem], then its first "@", then anything; a
    pattern that does not end with "@*", and any pattern against a name
    without "@", matches exactly when pattern and name are the same string.
    The four examples of the specification evaluate as it says. *)
Theorem match_unit_spec :
  (forall pattern unit stem : str,
      pattern = stem ++ lit "@*" -> chr "@" ∈ unit ->
      (match_unit pattern unit = true <->
       exists inst, unit = stem ++ chr "@" :: inst /\ chr "@" ∉ stem))
  /\ (forall pattern unit : str,
        (~ exists stem, pattern = stem ++ lit "@*") \/ chr "@" ∉ unit ->
        (match_unit pattern unit = true <-> pattern = unit))
  /\ match_unit (lit "foo@*") (lit "foo@1") = true
  /\ match_unit (lit "foo@*") (lit "bar@1") = false
  /\ match_unit (lit "foo") (lit "foo") = true
  /\ match_unit (lit "foo") (lit "foobar") = false.
Proof.
  split; [|split; [|repeat split]].
  - intros pattern unit stem -> Hin.
    rewrite match_unit_template by assumption.
    rewrite bool_decide_eq_true. split.
    + intros ->. destruct (before_sep_split _ _ Hin) as [inst Hinst].
      exists inst. split; [exact Hinst | apply before_sep_notin].
    + intros [inst [-> Hnotin]]. symmetry. apply before_sep_first, Hnotin.
  - intros pattern unit Hcase.
    rewrite match_unit_exact, bool_decide_eq_true; [tauto|].
    destruct Hcase as [Hno|Hnotin]; [left | right; assumption].
    destruct (endswith pattern (lit "@*")) eqn:Hend; [|reflexivity].
    apply endswith_true in Hend. contradiction.
Qed.

(** ** The message formatter *)

Lemma value_inj (p q : Problem) : value p = value q -> p = q.
Proof. destruct p, q; simpl; intros H; congruence. Qed.

Lemma problem_names_label (p : Problem) :
  getitem problem_names (value p) = Ok (label p).
Proof. destruct p; vm_compute; reflexivity. Qed.

Lemma get_message_step_walk (message : str) (last : option Problem)
    (problem : Problem) (unit : str) :
  get_message_step (message, last) (problem, unit)
  = Ok (message
        ++ (if decide (last = Some problem) then []
            else label problem ++ lit ": ")
        ++ unit ++ lit " ",
        Some problem).
Proof.
  unfold get_message_step.
  destruct (decide (last = Some problem)) as [->|Hne].
  - rewrite bool_decide_eq_true_2 by reflexivity. reflexivity.
  - rewrite bool_decide_eq_false_2 by congruence. simpl negb. cbv iota.
    rewrite problem_names_label. simpl bind.
    rewrite <- !app_assoc. reflexivity.
Qed.

Lemma get_message_loop (findings : list finding) :
  forall (message : str) (last : option Problem),
    exists last',
      foldM get_message_step (message, last) findings
      = Ok (message ++ walk last findings, last').
Proof.
  induction findings as [|[problem unit] rest IH]; intros message last.
  - exists last. simpl. rewrite app_nil_r. reflexivity.
  - rewrite foldM_cons, get_message_step_walk. simpl bind.
    match goal with |- context [foldM _ (?m, _) _] =>
      destruct (IH m (Some problem)) as [last' ->] end.
    exists last'. simpl walk. rewrite <- !app_assoc. reflexivity.
Qed.

Lemma get_message_walk (findings : list finding) :
  get_message findings = Ok (walk None findings).
Proof.
  unfold get_message.
  destruct (get_message_loop findings [] None) as [last' ->]. reflexivity.
Qed.

Lemma walk_app (before : list finding) (problem : Problem) (unit : str)
    (after : list finding) :
  forall previous,
    walk previous (before ++ (problem, unit) :: after)
    = walk previous (before ++ [(problem, unit)])
      ++ walk (Some problem) after.
Proof.
  induction before as [|[p u] before IH]; intros previous.
  - simpl app. cbn [walk]. rewrite <- !app_assoc. reflexivity.
  - simpl app. cbn [walk]. rewrite IH, <- !app_assoc. reflexivity.
Qed.

(** C5.  [get_message] never raises and returns the walk of the list: for
    each finding in order, the label and ": " exactly when its problem
    differs from the problem of the finding right before it (and for the
    first finding), then the unit name and one space.  The labels are the
    six names with spaces for underscores.  A problem that comes back after
    another one gets its label again, as in the example. *)
Theorem get_message_spec :
  (forall findings : list finding,
      get_message findings = Ok (walk None findings))
  /\ (forall (problem : Problem) (unit : str) (after : list finding),
        walk None ((problem, unit) :: after)
        = label problem ++ lit ": " ++ unit ++ lit " "
          ++ walk (Some problem) after)
  /\ (forall (before : list finding) (previous problem : Problem)
             (unit0 unit : str) (after : list finding),
        walk None (before ++ (previous, unit0) :: (problem, unit) :: after)
        = walk None (before ++ [(previous, unit0)])
          ++ (if decide (previous = problem) then []
              else label problem ++ lit ": ")
          ++ unit ++ lit " " ++ walk (Some problem) after)
  /\ (label failed = lit "failed"
      /\ label activating_auto_restart = lit "activating auto restart"
      /\ label not_loaded_but_not_inactive
         = lit "not loaded but not inactive"
      /\ label not_loaded_but_not_dead = lit "not loaded but not dead"
      /\ label dead = lit "dead"
      /\ label not_loaded = lit "not loaded")
  /\ get_message [(failed, lit "x"); (failed, lit "y"); (dead, lit "z");
                  (failed, lit "w")]
     = Ok (lit "failed: x y dead: z failed: w ").
Proof.
  split; [exact get_message_walk|].
  split; [|split; [|split; [repeat split | reflexivity]]].
  - intros problem unit after. simpl walk.
    rewrite <- !app_assoc. reflexivity.
  - intros before previous problem unit0 unit after.
    rewrite walk_app. f_equal. simpl walk.
    destruct (decide (Some previous = Some problem)) as [E|E],
             (decide (previous = problem)) as [E'|E'];
      try reflexivity; congruence.
Qed.

(** ** The report of [main] *)

(** C3, as amended.  When the listing command exits with a status that is
    not zero, so that [check_output] raises [CalledProcessError], [main]
    prints "UNKNOWN: " and the text of the error and exits with 3.  (Only
    that exception is caught: see [main_listing_not_started].)  When the
    listing is read and
    [process] returns [(criticals, warnings)]: with a critical finding it
    prints "CRITICAL: " and the message of [criticals ++ warnings] and exits
    with 2; else with a warning it prints "WARNING: " and the message of
    [warnings] and exits with 1; else it prints "OK" and exits with 0. *)
Theorem main_report :
  forall (sys : list str -> result bytes) (args : Args),
    let listing := sys (split None (list_units_command args)) in
    (forall text,
        listing = Raise (CalledProcessError text) ->
        main sys args = Ok ([lit "UNKNOWN: " ++ text], 3))
    /\ (forall raw output criticals warnings,
          listing = Ok raw -> decode raw = Ok output ->
          process sys output args = Ok (criticals, warnings) ->
          (criticals <> [] ->
           exists message,
             get_message (criticals ++ warnings) = Ok message
             /\ main sys args = Ok ([lit "CRITICAL: " ++ message], 2))
          /\ (criticals = [] -> warnings <> [] ->
              exists message,
                get_message warnings = Ok message
                /\ main sys args = Ok ([lit "WARNING: " ++ message], 1))
          /\ (criticals = [] -> warnings = [] ->
              main sys args = Ok ([lit "OK"], 0))).
Proof.
  intros sys args listing. subst listing. split.
  - intros text Hfail. unfold main. rewrite Hfail. reflexivity.
  - intros raw output criticals warnings Hraw Hdecode Hprocess.
    assert (Hmain : main sys args =
              match criticals, warnings with
              | _ :: _, _ =>
                  let* message := get_message (criticals ++ warnings) in
                  Ok ([lit "CRITICAL: " ++ message], 2)
              | [], _ :: _ =>
                  let* message := get_message warnings in
                  Ok ([lit "WARNING: " ++ message], 1)
              | [], [] => Ok ([lit "OK"], 0)
              end).
    { unfold main. rewrite Hraw. cbn [bind]. rewrite Hdecode, Hprocess.
      reflexivity. }
    rewrite Hmain. repeat split.
    + intros Hc. exists (walk None (criticals ++ warnings)).
      rewrite get_message_walk. destruct criticals; [congruence|].
      split; reflexivity.
    + intros -> Hw. exists (walk None warnings).
      rewrite get_message_walk. destruct warnings; [congruence|].
      split; reflexivity.
    + intros -> ->. reflexivity.
Qed.

Example main_sshd_failed :
  main (answering "sshd.service loaded failed failed")
    {| check_all := false; critical_units := [lit "sshd.service"];
       ignored_units := [] |}
  = Ok ([lit "CRITICAL: failed: sshd.service "], 2).
Proof. reflexivity. Qed.

Example main_not_found_is_ok :
  main (answering "foo.service not-found inactive dead")
    {| check_all := false; critical_units := []; ignored_units := [] |}
  = Ok ([lit "OK"], 0).
Proof. reflexivity. Qed.

Example main_template_instance :
  main (answering ("a.service loaded active dead" ++ nl
                   ++ "b@1.service loaded failed failed" ++ nl))
    {| check_all := true; critical_units := [lit "b@*"];
       ignored_units := [] |}
  = Ok ([lit "CRITICAL: failed: b@1.service "], 2).
Proof. reflexivity. Qed.

(** C3, as first stated, fails: when the listing command cannot be started
    the exception ends [main]; no "UNKNOWN: " line is printed and the exit
    status is not 3. *)
Lemma main_listing_not_started :
  let args := {| check_all := true; critical_units := [];
                 ignored_units := [] |} in
  main (fun _ => Raise FileNotFoundError) args = Raise FileNotFoundError
  /\ ~ (exists lines,
          main (fun _ => Raise FileNotFoundError) args = Ok (lines, 3)).
Proof. split; [reflexivity|]. intros [lines H]. discriminate H. Qed.

Example main_listing_fails :
  main (failing "Command returned non-zero exit status 1.")
    {| check_all := true; critical_units := []; ignored_units := [] |}
  = Ok ([lit "UNKNOWN: Command returned non-zero exit status 1."], 3).
Proof. reflexivity. Qed.

(** ** The fields of an inventory line *)

(** Up to the limit, a limited split yields the fields of the full one. *)
Lemma split_go_limit (s : str) :
  forall (n : nat) (word : option str),
    take (pending word + n) (split_go (Some n) word s)
    = take (pending word + n) (split_go None word s).
Proof.
  induction s as [|c s IH]; intros n word; [reflexivity|].
  destruct word as [w|]; simpl split_go.
  - destruct (isspace c).
    + simpl. f_equal. apply (IH n None).
    + apply (IH n (Some (w ++ [c]))).
  - destruct (isspace c).
    + apply (IH n None).
    + destruct n as [|m]; [reflexivity|].
      replace (pending None + S m)%nat with (pending (Some [c]) + m)%nat
        by (simpl; lia).
      apply (IH m (Some [c])).
Qed.

Lemma split_go_lstrip (maxcount : option nat) (s : str) :
  split_go maxcount None (lstrip s) = split_go maxcount None s.
Proof.
  induction s as [|c s IH]; [reflexivity|].
  simpl lstrip. destruct (isspace c) eqn:Hc.
  - rewrite IH. simpl. rewrite Hc. reflexivity.
  - reflexivity.
Qed.

Lemma split_go_blank_end (s : str) :
  forall (word : option str) (c : N),
    blank c -> split_go None word (s ++ [c]) = split_go None word s.
Proof.
  induction s as [|d s IH]; intros word c Hc.
  - simpl. rewrite Hc. destruct word; reflexivity.
  - simpl. destruct word as [w|], (isspace d); rewrite ?IH by assumption;
      reflexivity.
Qed.

Lemma split_go_blanks_end (ws : str) :
  Forall blank ws ->
  forall (s : str) (word : option str),
    split_go None word (s ++ ws) = split_go None word s.
Proof.
  induction 1 as [|c ws Hc _ IH]; intros s word.
  - rewrite app_nil_r. reflexivity.
  - rewrite (cons_middle c s ws), app_assoc, IH.
    apply split_go_blank_end, Hc.
Qed.

(** The fields of [a], a blank and [b] are those of [a], then those of
    [b]. *)
Lemma split_go_app_blank (a : str) :
  forall (word : option str) (c : N) (b : str),
    blank c ->
    split_go None word (a ++ c :: b)
    = split_go None word a ++ split_go None None b.
Proof.
  induction a as [|d a IH]; intros word c b Hc.
  - simpl. rewrite Hc. destruct word; reflexivity.
  - simpl. destruct word as [w|], (isspace d); rewrite ?IH by assumption;
      reflexivity.
Qed.

Lemma lstrip_blanks (s : str) :
  exists ws, Forall blank ws /\ s = ws ++ lstrip s.
Proof.
  induction s as [|c s (ws & Hws & Hs)].
  - exists []. split; [constructor | reflexivity].
  - simpl. destruct (isspace c) eqn:Hc.
    + exists (c :: ws). split; [constructor; assumption|].
      simpl. congruence.
    + exists []. split; [constructor | reflexivity].
Qed.

Lemma rstrip_blanks (s : str) :
  exists ws, Forall blank ws /\ s = rstrip s ++ ws.
Proof.
  destruct (lstrip_blanks (rev s)) as (ws & Hws & Hs).
  exists (rev ws). split.
  - apply List.Forall_rev, Hws.
  - unfold rstrip. rewrite <- List.rev_app_distr, <- Hs.
    symmetry. apply List.rev_involutive.
Qed.

Lemma fields_strip (s : str) : fields (strip s) = fields s.
Proof.
  unfold fields, split, strip.
  destruct (rstrip_blanks (lstrip s)) as (ws & Hws & Hs).
  rewrite <- (split_go_lstrip None s). rewrite Hs at 2.
  symmetry. apply split_go_blanks_end, Hws.
Qed.

(** What [process] reads of a line: the first four of its fields. *)
Lemma unit_split_fields (line : str) :
  take 4 (split (Some 4%nat) (strip line)) = take 4 (fields line).
Proof.
  rewrite <- (fields_strip line). apply (split_go_limit _ 4 None).
Qed.

(** ** The aggregator *)

Lemma process_line_fields sys args st line :
  process_line sys args st line
  = process_fields sys args st (take 4 (fields line)).
Proof.
  rewrite <- unit_split_fields. unfold process_line. destruct st as [c w].
  destruct (split (Some 4%nat) (strip line)) as [|name [|l [|a [|s rest]]]];
    try reflexivity.
  simpl take. unfold index. simpl lookup. cbn [bind process_fields].
  unfold check_unit_star.
  destruct (check_unit sys name l a s) as [[p|]|e]; try reflexivity.
  cbn [bind place]. unfold policy.
  destruct (any_match (critical_units args) name), p; reflexivity.
Qed.

Lemma policy_cases (args : Args) (p : Problem) (name : str) :
  match policy (any_match (critical_units args) name) p with
  | Skipped =>
      dropped args (p, name) = true /\ to_criticals args (p, name) = false
      /\ to_warnings args (p, name) = false
  | ToCriticals =>
      dropped args (p, name) = false /\ to_criticals args (p, name) = true
      /\ to_warnings args (p, name) = false
  | ToWarnings =>
      dropped args (p, name) = false /\ to_criticals args (p, name) = false
      /\ to_warnings args (p, name) = true
  end.
Proof.
  unfold policy, dropped, to_criticals, to_warnings. cbn [fst snd].
  destruct (any_match (critical_units args) name), p; repeat split.
Qed.

Lemma process_loop sys args lines records :
  Forall2 (classified sys) lines records ->
  forall criticals warnings,
    foldM (process_line sys args) (criticals, warnings) lines
    = Ok (criticals ++ List.filter (to_criticals args) (findings_of records),
          warnings ++ List.filter (to_warnings args) (findings_of records)).
Proof.
  induction 1 as [|line [name problem] lines records Hline _ IH];
    intros criticals warnings.
  - simpl. rewrite !app_nil_r. reflexivity.
  - destruct Hline as (load & active & sub & Hfields & Hcheck).
    cbn [fst snd] in Hfields, Hcheck.
    rewrite foldM_cons, process_line_fields, Hfields.
    cbn [process_fields]. rewrite Hcheck. cbn [bind].
    destruct problem as [p|]; cbn [place findings_of omap list_omap fmap
                                     option_fmap option_map fst snd].
    + pose proof (policy_cases args p name) as Hcases.
      cbn [List.filter].
      destruct (policy _ p); destruct Hcases as (_ & -> & ->); rewrite IH;
        rewrite <- ?app_assoc; reflexivity.
    + rewrite IH. reflexivity.
Qed.

Lemma filter_sublist {A : Type} (f : A -> bool) (l : list A) :
  sublist (List.filter f l) l.
Proof.
  induction l as [|x l IH]; simpl.
  - constructor.
  - destruct (f x); [apply sublist_skip | apply sublist_cons]; exact IH.
Qed.

Lemma elem_of_filter {A : Type} (f : A -> bool) (l : list A) (x : A) :
  x ∈ List.filter f l <-> x ∈ l /\ f x = true.
Proof. rewrite !list_elem_of_In. apply List.filter_In. Qed.

(** C2.  [process] walks the records in inventory order; a record without a
    problem adds nothing; a finding of a unit that matches no critical
    pattern, with rank at least that of [dead], is in neither list; a finding
    of a unit that matches a critical pattern, with rank below that of
    [dead], is in [criticals] only; any other finding is in [warnings] only;
    and both lists keep the order of the records. *)
Theorem process_policy :
  forall (sys : list str -> result bytes) (args : Args) (output : str)
         (records : list (str * option Problem)),
    Forall2 (classified sys) (splitlines output) records ->
    exists criticals warnings,
      process sys output args = Ok (criticals, warnings)
      /\ criticals = List.filter (to_criticals args) (findings_of records)
      /\ warnings = List.filter (to_warnings args) (findings_of records)
      /\ (forall f, f ∈ findings_of records ->
            let critical := any_match (critical_units args) f.2 in
            (critical = false -> value dead <= value f.1 ->
             (f ∉ criticals) /\ (f ∉ warnings))
            /\ (critical = true -> value f.1 < value dead ->
                (f ∈ criticals) /\ (f ∉ warnings))
            /\ ((critical = true /\ value dead <= value f.1)
                \/ (critical = false /\ value f.1 < value dead) ->
                (f ∈ warnings) /\ (f ∉ criticals)))
      /\ (forall f, f ∈ criticals ++ warnings -> f ∈ findings_of records)
      /\ (forall f, ~ ((f ∈ criticals) /\ (f ∈ warnings)))
      /\ sublist criticals (findings_of records)
      /\ sublist warnings (findings_of records).
Proof.
  intros sys args output records Hrecords.
  eexists _, _. split; [|split; [reflexivity | split; [reflexivity|]]].
  { unfold process. rewrite (process_loop _ _ _ _ Hrecords). reflexivity. }
  split; [|split; [|split; [|split; apply filter_sublist]]].
  - intros f Hin critical. subst critical.
    rewrite !elem_of_filter. unfold to_criticals, to_warnings.
    change (value dead) with 4 in *.
    destruct (any_match (critical_units args) f.2);
      destruct (Z.leb_spec 4 (value f.1));
      destruct (Z.ltb_spec (value f.1) 4); simpl;
      intuition (try lia; try discriminate).
  - intros f Hin. apply elem_of_app in Hin as [Hin|Hin];
      apply elem_of_filter in Hin; tauto.
  - intros f. rewrite !elem_of_filter. unfold to_criticals, to_warnings.
    change (value dead) with 4 in *.
    destruct (any_match (critical_units args) f.2);
      destruct (Z.leb_spec 4 (value f.1));
      destruct (Z.ltb_spec (value f.1) 4); simpl;
      intuition (try lia; try discriminate).
Qed.

Lemma process_policy_witness :
  exists criticals warnings,
    process (answering "") (lit inventory_demo) args_demo
    = Ok (criticals, warnings)
    /\ criticals = [(failed, lit "b@1.service")]
    /\ warnings = [(dead, lit "b@2.service")].
Proof.
  assert (Hrecords :
    Forall2 (classified (answering "")) (splitlines (lit inventory_demo))
      [ (lit "a.service", Some dead); (lit "b@1.service", Some failed);
        (lit "c.service", Some not_loaded); (lit "b@2.service", Some dead);
        (lit "d.service", None) ]).
  { repeat constructor; eexists _, _, _; split; reflexivity. }
  destruct (process_policy (answering "") args_demo (lit inventory_demo) _
              Hrecords) as (criticals & warnings & Hprocess & -> & -> & _).
  eexists _, _. split; [exact Hprocess|]. split; reflexivity.
Defined.

(** ** Malformed and over-long lines *)

Lemma process_line_short sys args st line :
  (length (fields line) < 4)%nat ->
  process_line sys args st line
  = Raise (if decide (fields line = []) then IndexError else TypeError).
Proof.
  intros Hshort. rewrite process_line_fields, take_ge by lia.
  destruct (fields line) as [|a [|b [|c [|d rest]]]]; simpl in Hshort;
    try lia; reflexivity.
Qed.

Lemma process_loop_short sys args lines :
  (exists line, line ∈ lines /\ (length (fields line) < 4)%nat) ->
  forall st, exists e, foldM (process_line sys args) st lines = Raise e.
Proof.
  induction lines as [|first lines IH]; intros (line & Hin & Hshort) st.
  - apply elem_of_nil in Hin. contradiction.
  - rewrite foldM_cons. apply elem_of_cons in Hin as [->|Hin].
    + rewrite process_line_short by assumption. simpl. eauto.
    + destruct (process_line sys args st first) as [st'|e]; simpl;
        [apply IH|]; eauto.
Qed.

(** C8.  There is an inventory with a line of fewer than four fields on
    which [process] raises [IndexError].  On any such line the body of the
    loop raises, [IndexError] when the line has no field at all and
    [TypeError] when it has one to three, so the record is neither skipped
    nor processed; and [process] returns no lists for any inventory that
    holds such a line. *)
Theorem short_line_fails :
  (exists output,
      (exists line,
          line ∈ splitlines output /\ (length (fields line) < 4)%nat)
      /\ forall sys args, process sys output args = Raise IndexError)
  /\ (forall sys args st line,
        (length (fields line) < 4)%nat ->
        process_line sys args st line
        = Raise (if decide (fields line = []) then IndexError
                 else TypeError))
  /\ (forall sys args output,
        (exists line,
            line ∈ splitlines output /\ (length (fields line) < 4)%nat) ->
        exists e, process sys output args = Raise e).
Proof.
  split; [|split].
  - exists (lit ("ssh.service loaded active running" ++ nl ++ nl)). split.
    + exists []. split; [|simpl; lia].
      vm_compute. apply list_elem_of_In. right. left. reflexivity.
    + intros sys args. reflexivity.
  - intros. apply process_line_short. assumption.
  - intros sys args output Hshort. apply process_loop_short, Hshort.
Qed.

Example process_three_fields sys args :
  process sys (lit "ssh.service loaded active") args = Raise TypeError.
Proof. reflexivity. Qed.

Lemma fields_app_blank (line : str) (c : N) (extra : str) :
  blank c -> fields (line ++ c :: extra) = fields line ++ fields extra.
Proof. intros Hc. apply split_go_app_blank, Hc. Qed.

Lemma process_loop_same_fields sys args lines lines' :
  Forall2 (fun line line' => take 4 (fields line') = take 4 (fields line))
    lines lines' ->
  forall st,
    foldM (process_line sys args) st lines'
    = foldM (process_line sys args) st lines.
Proof.
  induction 1 as [|line line' lines lines' Hsame _ IH]; intros st;
    [reflexivity|].
  rewrite !foldM_cons, !process_line_fields, Hsame.
  destruct (process_fields sys args st (take 4 (fields line))); simpl;
    [apply IH | reflexivity].
Qed.

(** C9.  On a line with at least four fields, the turn of the loop is
    decided by the first four: a line with the same first four fields gives
    the same result; so does the line with a blank and any text appended;
    and two inventories whose lines agree, one by one, on their first four
    fields give the same lists. *)
Theorem trailing_text_ignored :
  forall (sys : list str -> result bytes) (args : Args),
    (forall st line line',
        (4 <= length (fields line))%nat ->
        take 4 (fields line') = take 4 (fields line) ->
        process_line sys args st line' = process_line sys args st line)
    /\ (forall st line c extra,
          (4 <= length (fields line))%nat -> blank c ->
          process_line sys args st (line ++ c :: extra)
          = process_line sys args st line)
    /\ (forall output output',
          Forall2 (fun line line' =>
                     (4 <= length (fields line))%nat
                     /\ take 4 (fields line') = take 4 (fields line))
            (splitlines output) (splitlines output') ->
          process sys output' args = process sys output args).
Proof.
  intros sys args. split; [|split].
  - intros st line line' _ Hsame.
    rewrite !process_line_fields, Hsame. reflexivity.
  - intros st line c extra Hfour Hc.
    rewrite !process_line_fields, fields_app_blank by assumption.
    rewrite take_app_le by assumption. reflexivity.
  - intros output output' Hlines. unfold process.
    apply process_loop_same_fields.
    eapply Forall2_impl; [exact Hlines|]. intros line line' [_ Hsame].
    exact Hsame.
Qed.

Example process_with_description :
  process (answering "")
    (lit "cron.service loaded failed failed Regular background processing")
    args_demo
  = process (answering "") (lit "cron.service loaded failed failed")
      args_demo.
Proof. reflexivity. Qed.

(** ** The ignored units *)

Lemma foldM_ext {S A : Type} (f g : S -> A -> result S) (l : list A) :
  (forall st x, f st x = g st x) ->
  forall st, foldM f st l = foldM g st l.
Proof.
  intros Hfg. induction l as [|x l IH]; intros st; [reflexivity|].
  rewrite !foldM_cons, Hfg. destruct (g st x); simpl; [apply IH|reflexivity].
Qed.

(** [process] never reads [ignored_units]. *)
Lemma process_ignored_units_unread sys output all critical ignored ignored' :
  process sys output
    {| check_all := all; critical_units := critical;
       ignored_units := ignored |}
  = process sys output
      {| check_all := all; critical_units := critical;
         ignored_units := ignored' |}.
Proof. unfold process. apply foldM_ext. intros [c w] line. reflexivity. Qed.

(** C6.  A failed unit named by an ignored-unit pattern is reported all the
    same: it is in [warnings], and [main] prints it and exits with 1. *)
Theorem ignored_unit_is_reported :
  let args := {| check_all := true; critical_units := [];
                 ignored_units := [lit "foo.service"] |} in
  let output := "foo.service loaded failed failed"%string in
  any_match (ignored_units args) (lit "foo.service") = true
  /\ (forall sys,
        process sys (lit output) args = Ok ([], [(failed, lit "foo.service")]))
  /\ main (answering output) args
     = Ok ([lit "WARNING: failed: foo.service "], 1).
Proof. repeat split. Qed.

(** * Further properties of the program *)

(** ** Words and argument vectors *)

Lemma split_go_word (s : str) :
  forall w : str,
    Forall (fun c => isspace c = false) s ->
    split_go None (Some w) s = [w ++ s].
Proof.
  induction s as [|c s IH]; intros w Hs.
  - simpl. rewrite app_nil_r. reflexivity.
  - apply Forall_cons in Hs as [Hc Hs]. simpl. rewrite Hc.
    rewrite IH by assumption. rewrite <- app_assoc. reflexivity.
Qed.

Lemma fields_token (s : str) : token s -> fields s = [s].
Proof.
  intros [Hne Hs]. destruct s as [|c s]; [congruence|].
  apply Forall_cons in Hs as [Hc Hs].
  unfold fields, split. simpl. rewrite Hc.
  apply (split_go_word s [c] Hs).
Qed.

Lemma split_go_tokens (s : str) :
  forall word : option str,
    (forall w, word = Some w -> token w) ->
    Forall token (split_go None word s).
Proof.
  induction s as [|c s IH]; intros word Hword.
  - destruct word as [w|]; simpl; [|constructor].
    apply Forall_cons. split; [apply Hword; reflexivity | constructor].
  - simpl. destruct word as [w|], (isspace c) eqn:Hc.
    + apply Forall_cons. split; [apply Hword; reflexivity|].
      apply IH. intros w' [=].
    + apply IH. intros w' [= <-]. destruct (Hword w eq_refl) as [Hne Hw].
      split; [intros Hnil; apply app_eq_nil in Hnil as [_ [=]]|].
      apply Forall_app. split; [assumption|].
      apply Forall_cons. split; [exact Hc | constructor].
    + apply IH. intros w' [=].
    + apply IH. intros w' [= <-].
      split; [discriminate|]. apply Forall_cons. split; [exact Hc | constructor].
Qed.

Lemma fields_tokens (line : str) : Forall token (fields line).
Proof. apply split_go_tokens. intros w [=]. Qed.

Lemma fields_command (command : str) (units : list str) :
  fields (foldl (fun command unit => command ++ (lit " " ++ unit))
            command units)
  = fields command ++ concat (List.map fields units).
Proof.
  revert command. induction units as [|unit units IH]; intros command.
  - simpl. rewrite app_nil_r. reflexivity.
  - simpl foldl. rewrite IH.
    change (lit " " ++ unit) with (32%N :: unit).
    rewrite fields_app_blank by reflexivity.
    simpl concat. rewrite <- app_assoc. reflexivity.
Qed.

Lemma concat_fields_tokens (units : list str) :
  Forall token units -> concat (List.map fields units) = units.
Proof.
  induction 1 as [|unit units Hunit _ IH]; [reflexivity|].
  simpl. rewrite (fields_token _ Hunit), IH. reflexivity.
Qed.

(** X1.  The argument vector [main] passes to [check_output]: the five
    words of the listing command and, unless all units are asked for, the
    fields of every critical unit pattern, in order.  A pattern that is one
    word is one argument; one that holds white space is split at it. *)
Theorem main_listing_argv :
  forall args : Args,
    split None (list_units_command args)
    = list_units_argv
      ++ (if check_all args then []
          else concat (List.map fields (critical_units args)))
    /\ (check_all args = false -> Forall token (critical_units args) ->
        split None (list_units_command args)
        = list_units_argv ++ critical_units args)
    /\ (critical_units args = [] ->
        split None (list_units_command args) = list_units_argv).
Proof.
  intros args.
  assert (Hargv : split None (list_units_command args)
                  = list_units_argv
                    ++ (if check_all args then []
                        else concat (List.map fields (critical_units args)))).
  { unfold list_units_command. destruct (check_all args); [reflexivity|].
    cbn [negb].
    exact (fields_command
             (lit "systemctl --all --no-legend --no-pager list-units")
             (critical_units args)). }
  split; [exact Hargv|]. split.
  - intros Hall Htokens. rewrite Hargv, Hall.
    rewrite concat_fields_tokens by assumption. reflexivity.
  - intros Hnone. rewrite Hargv, Hnone. destruct (check_all args); reflexivity.
Qed.

Example main_listing_argv_two_words :
  split None
    (list_units_command
       {| check_all := false; critical_units := [lit "a.service b@*"];
          ignored_units := [] |})
  = list_units_argv ++ [lit "a.service"; lit "b@*"].
Proof. reflexivity. Qed.

Lemma show_command_argv (name : str) :
  token name ->
  split None (show_command name)
  = [lit "systemctl"; lit "show"; lit "-p"; lit "ExecMainStatus"; name].
Proof.
  intros Hname. unfold show_command.
  change (lit "systemctl show -p ExecMainStatus ")
    with (lit "systemctl show -p ExecMainStatus" ++ [32%N]).
  rewrite <- app_assoc. simpl ([32%N] ++ name).
  change (split None ?s) with (fields s).
  rewrite fields_app_blank by reflexivity.
  rewrite (fields_token _ Hname). reflexivity.
Qed.

(** X2.  The unit name [process] reads from a line is one word, and the
    lookup for it runs [systemctl show -p ExecMainStatus] with that name as
    its one last argument. *)
Theorem lookup_argv_of_inventory_name :
  forall (line name : str) (rest : list str),
    split (Some 4%nat) (strip line) = name :: rest ->
    token name
    /\ split None (show_command name)
       = [lit "systemctl"; lit "show"; lit "-p"; lit "ExecMainStatus"; name].
Proof.
  intros line name rest Hsplit.
  assert (Hname : token name).
  { pose proof (fields_tokens line) as Htokens.
    pose proof (unit_split_fields line) as Hfields.
    rewrite Hsplit in Hfields. simpl take at 1 in Hfields.
    destruct (fields line) as [|first others]; [discriminate|].
    simpl in Hfields. injection Hfields as -> _.
    apply Forall_cons in Htokens as [Hfirst _]. exact Hfirst. }
  split; [exact Hname | apply show_command_argv, Hname].
Qed.

Lemma lookup_argv_of_inventory_name_witness :
  split None (show_command (lit "cron.service"))
  = [lit "systemctl"; lit "show"; lit "-p"; lit "ExecMainStatus";
     lit "cron.service"].
Proof.
  exact (proj2 (lookup_argv_of_inventory_name
                  (lit "cron.service loaded activating auto-restart Cron")
                  (lit "cron.service")
                  [lit "loaded"; lit "activating"; lit "auto-restart";
                   lit "Cron"]
                  eq_refl)).
Defined.

(** ** The exit status the lookup reads *)

















(** X4.  When the answer of the query is no longer than the fifteen
    characters of [ExecMainStatus=], nothing is left to read: the lookup
    raises [ValueError], and so does the classification of a loaded unit in
    sub-state "auto-restart". *)
Theorem get_exit_code_short_answer :
  forall (sys : list str -> result bytes) (name : str) (output : bytes),
    sys (split None (show_command name)) = Ok output ->
    (length output <= 15)%nat ->
    get_exit_code sys name = Raise ValueError
    /\ (forall active, active <> lit "failed" ->
        check_unit sys name (lit "loaded") active (lit "auto-restart")
        = Raise ValueError).
Proof.
  intros sys name output Hanswer Hshort.
  assert (Hcode : get_exit_code sys name = Raise ValueError).
  { unfold get_exit_code. cbv zeta. rewrite Hanswer.
    change (length (lit "ExecMainStatus=")) with 15%nat.
    rewrite drop_ge by assumption. reflexivity. }
  split; [exact Hcode|].
  intros active Hactive. rewrite check_unit_auto_restart by auto.
  rewrite Hcode. reflexivity.
Qed.

Lemma get_exit_code_short_answer_witness :
  get_exit_code (answering "") (lit "cron.service") = Raise ValueError.
Proof.
  refine (proj1 (get_exit_code_short_answer
                   (answering "") (lit "cron.service") [] eq_refl _)).
  simpl. lia.
Defined.

(** ** What a run of [process] keeps *)

Lemma process_fields_ok sys args st fs st' :
  process_fields sys args st fs = Ok st' ->
  exists name load active sub problem,
    fs = [name; load; active; sub]
    /\ check_unit sys name load active sub = Ok problem
    /\ st' = place args st name problem.
Proof.
  destruct fs as [|name [|load [|active [|sub [|extra fs]]]]];
    try discriminate.
  cbn [process_fields].
  destruct (check_unit sys name load active sub) as [problem|e] eqn:Hcheck;
    [|discriminate].
  cbn [bind]. intros [= <-]. eauto 10.
Qed.

Lemma place_adds args criticals warnings name problem :
  token name ->
  exists cs ws,
    place args (criticals, warnings) name problem
    = (criticals ++ cs, warnings ++ ws)
    /\ Forall (critical_finding args) cs
    /\ Forall (warning_finding args) ws
    /\ (length cs + length ws <= 1)%nat.
Proof.
  intros Hname. destruct problem as [p|]; cbn [place fst snd].
  - pose proof (policy_cases args p name) as Hcases.
    unfold dropped, to_criticals, to_warnings in Hcases.
    cbn [fst snd] in Hcases. change (value dead) with 4 in Hcases.
    destruct (policy (any_match (critical_units args) name) p).
    + exists [], []. rewrite !app_nil_r.
      split; [reflexivity|]. split; [constructor|].
      split; [constructor | simpl; lia].
    + exists [(p, name)], []. rewrite app_nil_r.
      split; [reflexivity|]. split; [|split; [constructor | simpl; lia]].
      apply Forall_cons. split; [|constructor].
      unfold critical_finding. cbn [fst snd]. change (value dead) with 4.
      destruct Hcases as (_ & Hc & _).
      apply andb_true_iff in Hc as [Hany Hrank].
      apply Z.ltb_lt in Hrank. auto.
    + exists [], [(p, name)]. rewrite app_nil_r.
      split; [reflexivity|]. split; [constructor|]. split; [|simpl; lia].
      apply Forall_cons. split; [|constructor].
      unfold warning_finding. cbn [fst snd]. change (value dead) with 4.
      destruct Hcases as (_ & _ & Hw). split; [exact Hname|].
      destruct (any_match (critical_units args) name); cbn in Hw.
      * left. split; [reflexivity|]. rewrite orb_false_r in Hw.
        apply Z.leb_le. exact Hw.
      * right. split; [reflexivity|]. apply Z.ltb_lt. exact Hw.
  - exists [], []. rewrite !app_nil_r.
    split; [reflexivity|]. split; [constructor|].
    split; [constructor | simpl; lia].
Qed.

Lemma process_line_adds sys args criticals warnings line st' :
  process_line sys args (criticals, warnings) line = Ok st' ->
  exists cs ws,
    st' = (criticals ++ cs, warnings ++ ws)
    /\ Forall (critical_finding args) cs
    /\ Forall (warning_finding args) ws
    /\ (length cs + length ws <= 1)%nat.
Proof.
  rewrite process_line_fields. intros Hok.
  apply process_fields_ok in Hok
    as (name & load & active & sub & problem & Hfields & _ & ->).
  apply place_adds.
  pose proof (fields_tokens line) as Htokens.
  apply (Forall_take _ 4%nat) in Htokens. rewrite Hfields in Htokens.
  apply Forall_cons in Htokens as [Hname _]. exact Hname.
Qed.

Lemma process_loop_adds sys args lines :
  forall criticals warnings st',
    foldM (process_line sys args) (criticals, warnings) lines = Ok st' ->
    exists cs ws,
      st' = (criticals ++ cs, warnings ++ ws)
      /\ Forall (critical_finding args) cs
      /\ Forall (warning_finding args) ws
      /\ (length cs + length ws <= length lines)%nat.
Proof.
  induction lines as [|line lines IH]; intros criticals warnings st'.
  - intros [= <-]. exists [], []. rewrite !app_nil_r.
    split; [reflexivity|]. split; [constructor|].
    split; [constructor | simpl; lia].
  - rewrite foldM_cons.
    destruct (process_line sys args (criticals, warnings) line)
      as [st1|e] eqn:Hline; [|discriminate].
    cbn [bind]. intros Hrest.
    apply process_line_adds in Hline as (cs1 & ws1 & -> & Hc1 & Hw1 & Hn1).
    apply IH in Hrest as (cs2 & ws2 & -> & Hc2 & Hw2 & Hn2).
    exists (cs1 ++ cs2), (ws1 ++ ws2). rewrite !app_assoc.
    split; [reflexivity|].
    split; [apply Forall_app; auto|]. split; [apply Forall_app; auto|].
    rewrite !length_app. simpl. lia.
Qed.

(** X5.  Whatever the inventory, when [process] returns its two lists:
    every finding in [criticals] is of a unit that matches a critical
    pattern and has a problem ranked before [dead]; every finding in
    [warnings] is of a unit that matches a critical pattern with a problem
    ranked [dead] or after, or of one that matches none with a problem
    ranked before [dead]; every unit name in them is one word without white
    space; and there are no more findings than lines. *)
Theorem process_keeps :
  forall (sys : list str -> result bytes) (output : str) (args : Args)
         (criticals warnings : list finding),
    process sys output args = Ok (criticals, warnings) ->
    Forall (critical_finding args) criticals
    /\ Forall (warning_finding args) warnings
    /\ (length criticals + length warnings
        <= length (splitlines output))%nat.
Proof.
  intros sys output args criticals warnings Hprocess.
  apply process_loop_adds in Hprocess as (cs & ws & [= -> ->] & Hrest).
  exact Hrest.
Qed.

Lemma process_keeps_witness :
  Forall (critical_finding args_demo) [(failed, lit "b@1.service")].
Proof.
  exact (proj1 (process_keeps (answering "") (lit inventory_demo) args_demo
                  [(failed, lit "b@1.service")]
                  [(dead, lit "b@2.service")] eq_refl)).
Defined.

(** ** What ends [main], and what it prints *)

Lemma utf8_raises (n : nat) :
  forall (s : list N) (e : exn),
    (length s < n)%nat -> utf8 s = Raise e -> e = UnicodeDecodeError.
Proof.
  induction n as [|n IH]; intros s e Hlen; [lia|].
  destruct s as [|b0 s1]; [discriminate|]. cbn [utf8].
  repeat match goal with
         | |- context [if ?b then _ else _] => destruct b
         | |- context [match ?l with [] => _ | _ :: _ => _ end] =>
             is_var l; destruct l
         end;
    try (intros [= <-]; reflexivity);
    match goal with
    | |- (let* r := utf8 ?t in _) = _ -> _ =>
        intros Hraise;
        destruct (utf8 t) as [r|e'] eqn:Ht; cbn [bind] in Hraise;
        [discriminate
        | injection Hraise as <-; apply (IH t e');
          [simpl in Hlen; lia | exact Ht]]
    end.
Qed.

Lemma decode_raises (b : bytes) (e : exn) :
  decode b = Raise e -> e = UnicodeDecodeError.
Proof. apply (utf8_raises (S (length (List.map Byte.to_N b)))). lia. Qed.

Lemma int_raises (b : bytes) (e : exn) : int b = Raise e -> e = ValueError.
Proof.
  unfold int.
  match goal with
  | |- context [let '(_, _) := ?m in _] => destruct m as [negative body]
  end.
  destruct (digits body); [discriminate|]. intros [= <-]. reflexivity.
Qed.

Lemma get_exit_code_raises sys name e :
  get_exit_code sys name = Raise e ->
  (e = ValueError /\ exists output,
       sys (split None (show_command name)) = Ok output)
  \/ (sys (split None (show_command name)) = Raise e
      /\ forall text, e <> CalledProcessError text).
Proof.
  unfold get_exit_code. cbv zeta.
  destruct (sys (split None (show_command name))) as [output|e'].
  - intros H. apply int_raises in H. left. eauto.
  - destruct e'; try discriminate; intros [= <-]; right;
      (split; [reflexivity | discriminate]).
Qed.

Lemma check_unit_raises sys name load active sub e :
  check_unit sys name load active sub = Raise e ->
  get_exit_code sys name = Raise e.
Proof.
  destruct (decide (load = lit "loaded")) as [Hl|Hl];
    [|rewrite check_unit_not_loaded by assumption; discriminate].
  destruct (decide (active = lit "failed")) as [Ha|Ha];
    [rewrite check_unit_active_failed by assumption; discriminate|].
  destruct (decide (sub = lit "auto-restart")) as [Hs|Hs];
    [|rewrite check_unit_other_sub by assumption; discriminate].
  rewrite check_unit_auto_restart by assumption.
  destruct (get_exit_code sys name) as [code|e']; cbn [bind];
    [discriminate | intros [= ->]; reflexivity].
Qed.

(** The exceptions that are not of the environment's making. *)
Lemma process_fields_raises sys args st fs e :
  fails_by_status sys ->
  process_fields sys args st fs = Raise e ->
  e = IndexError \/ e = TypeError \/ e = ValueError.
Proof.
  intros Hsys.
  destruct fs as [|name [|load [|active [|sub [|extra fs]]]]];
    cbn [process_fields]; try (intros [= <-]; auto).
  destruct (check_unit sys name load active sub) as [problem|e'] eqn:Hcheck;
    [discriminate|].
  cbn [bind]. intros [= ->].
  apply check_unit_raises, get_exit_code_raises in Hcheck
    as [[-> _]|[Hraise Hnot]]; [auto|].
  destruct (Hsys _ _ Hraise) as [text ->]. destruct (Hnot text eq_refl).
Qed.

Lemma process_loop_raises sys args lines e :
  fails_by_status sys ->
  forall st,
    foldM (process_line sys args) st lines = Raise e ->
    e = IndexError \/ e = TypeError \/ e = ValueError.
Proof.
  intros Hsys. induction lines as [|line lines IH]; intros st;
    [discriminate|].
  rewrite foldM_cons.
  destruct (process_line sys args st line) as [st'|e'] eqn:Hline;
    cbn [bind]; [apply IH|].
  intros [= ->]. rewrite process_line_fields in Hline.
  exact (process_fields_raises _ _ _ _ _ Hsys Hline).
Qed.

(** [main], case by case. *)
Lemma main_cases sys args :
  main sys args
  = match sys (split None (list_units_command args)) with
    | Raise (CalledProcessError text) => Ok ([lit "UNKNOWN: " ++ text], 3)
    | Raise e => Raise e
    | Ok raw =>
        match decode raw with
        | Raise e => Raise UnicodeDecodeError
        | Ok output =>
            match process sys output args with
            | Raise e => Raise e
            | Ok (criticals, warnings) =>
                Ok (match criticals, warnings with
                    | _ :: _, _ =>
                        ([lit "CRITICAL: "
                          ++ walk None (criticals ++ warnings)], 2)
                    | [], _ :: _ =>
                        ([lit "WARNING: " ++ walk None warnings], 1)
                    | [], [] => ([lit "OK"], 0)
                    end)
            end
        end
    end.
Proof.
  unfold main. cbv zeta.
  destruct (sys (split None (list_units_command args))) as [raw|e];
    cbn [bind]; [|reflexivity].
  destruct (decode raw) as [output|e] eqn:Hdecode.
  - destruct (process sys output args) as [[criticals warnings]|e];
      cbn [bind]; [|reflexivity].
    destruct criticals, warnings; rewrite ?get_message_walk; reflexivity.
  - apply decode_raises in Hdecode as ->. reflexivity.
Qed.

(** ** Patterns that match nothing *)

(** X6.  A template pattern whose text before "@*" itself holds an "@"
    matches no unit name at all, not even the name spelled like the
    pattern: the text before the first "@" of a name holds none. *)
Theorem match_unit_nested_template :
  forall stem unit : str,
    chr "@" ∈ stem -> match_unit (stem ++ lit "@*") unit = false.
Proof.
  intros stem unit Hstem.
  destruct (decide (chr "@" ∈ unit)) as [Hunit|Hunit].
  - rewrite match_unit_template by assumption.
    apply bool_decide_eq_false_2. intros ->.
    exact (before_sep_notin _ _ Hstem).
  - rewrite match_unit_exact by (right; assumption).
    apply bool_decide_eq_false_2. intros <-.
    apply Hunit, elem_of_app. left. exact Hstem.
Qed.

Lemma match_unit_nested_template_witness :
  match_unit (lit "getty@tty@*") (lit "getty@tty@*") = false.
Proof.
  refine (match_unit_nested_template (lit "getty@tty") (lit "getty@tty@*") _).
  vm_compute. set_solver.
Defined.

(** ** The line [main] prints *)

Lemma linebreak_isspace (c : N) : is_linebreak c = true -> isspace c = true.
Proof.
  unfold is_linebreak, isspace.
  rewrite !orb_true_iff, !andb_true_iff, !N.leb_le, !N.eqb_eq. lia.
Qed.

Lemma token_one_line (s : str) :
  token s -> Forall (fun c => is_linebreak c = false) s.
Proof.
  intros [_ Hs]. eapply Forall_impl; [exact Hs|]. intros c Hc.
  destruct (is_linebreak c) eqn:Hbreak; [|reflexivity].
  apply linebreak_isspace in Hbreak. congruence.
Qed.

Lemma label_one_line (p : Problem) :
  Forall (fun c => is_linebreak c = false) (label p ++ lit ": ").
Proof. destruct p; vm_compute; repeat constructor. Qed.

Lemma walk_one_line (findings : list finding) :
  Forall (fun f => token f.2) findings ->
  forall previous,
    Forall (fun c => is_linebreak c = false) (walk previous findings).
Proof.
  induction 1 as [|[p unit] findings Hunit _ IH]; intros previous;
    [constructor|].
  cbn [walk]. repeat apply Forall_app_2.
  - destruct (decide (previous = Some p)); [constructor|].
    apply label_one_line.
  - apply token_one_line, Hunit.
  - repeat constructor.
  - apply IH.
Qed.

Lemma walk_not_empty (previous : option Problem) (f : finding)
    (findings : list finding) :
  walk previous (f :: findings) <> [].
Proof.
  destruct f as [p unit]. cbn [walk]. intros Hnil.
  apply app_eq_nil in Hnil as [_ Hnil].
  apply app_eq_nil in Hnil as [_ Hnil]. discriminate Hnil.
Qed.

Lemma process_names_tokens sys output args criticals warnings :
  process sys output args = Ok (criticals, warnings) ->
  Forall (fun f => token f.2) (criticals ++ warnings)
  /\ Forall (critical_finding args) criticals.
Proof.
  intros Hprocess.
  apply process_loop_adds in Hprocess
    as (cs & ws & [= -> ->] & Hcs & Hws & _).
  split; [|exact Hcs]. apply Forall_app. split.
  - eapply Forall_impl; [exact Hcs|]. intros f Hf. apply Hf.
  - eapply Forall_impl; [exact Hws|]. intros f Hf. apply Hf.
Qed.

(** X7.  Whenever [main] returns, it has printed exactly one line and exits
    with 0, 1, 2 or 3: "OK" with 0; "WARNING: " and a message that is not
    empty with 1; "CRITICAL: " and a message that is not empty with 2;
    "UNKNOWN: " and the text of the error with 3, which happens only when
    the listing command raised [CalledProcessError].  Unless the status is 3,
    the line holds no line boundary. *)
Theorem main_prints_one_line :
  forall (sys : list str -> result bytes) (args : Args)
         (lines : list str) (code : Z),
    main sys args = Ok (lines, code) ->
    exists line,
      lines = [line]
      /\ ((code = 0 /\ line = lit "OK")
          \/ (code = 1 /\ exists message,
                 message <> [] /\ line = lit "WARNING: " ++ message)
          \/ (code = 2 /\ exists message,
                 message <> [] /\ line = lit "CRITICAL: " ++ message)
          \/ (code = 3 /\ exists text,
                 line = lit "UNKNOWN: " ++ text
                 /\ sys (split None (list_units_command args))
                    = Raise (CalledProcessError text)))
      /\ (code <> 3 -> Forall (fun c => is_linebreak c = false) line).
Proof.
  intros sys args lines code. rewrite main_cases.
  assert (Hprefix : forall severity : string,
             In severity ["WARNING: "; "CRITICAL: "]%string ->
             Forall (fun c => is_linebreak c = false) (lit severity)).
  { intros severity [<-|[<-|[]]]; vm_compute; repeat constructor. }
  destruct (sys (split None (list_units_command args))) as [raw|e].
  - destruct (decode raw) as [output|e]; [|discriminate].
    destruct (process sys output args) as [[criticals warnings]|e]
      eqn:Hprocess; [|discriminate].
    apply process_names_tokens in Hprocess as [Htokens _].
    destruct criticals as [|f criticals], warnings as [|g warnings];
      match goal with
      | |- Ok (?l, ?c) = Ok (lines, code) -> _ =>
          intros H; assert (Hl : lines = l) by congruence;
          assert (Hc : code = c) by congruence; clear H; subst lines code
      end;
      eexists; (split; [reflexivity|]); split.
    + left. auto.
    + intros _. vm_compute. repeat constructor.
    + right. left. split; [reflexivity|]. eexists.
      split; [apply (walk_not_empty None g) | reflexivity].
    + intros _. apply Forall_app.
      split; [apply Hprefix; simpl; auto|]. apply walk_one_line, Htokens.
    + right. right. left. split; [reflexivity|]. eexists.
      split; [apply (walk_not_empty None f) | reflexivity].
    + intros _. apply Forall_app.
      split; [apply Hprefix; simpl; auto|]. apply walk_one_line, Htokens.
    + right. right. left. split; [reflexivity|]. eexists.
      split; [apply (walk_not_empty None f) | reflexivity].
    + intros _. apply Forall_app.
      split; [apply Hprefix; simpl; auto|]. apply walk_one_line, Htokens.
  - destruct e; try discriminate.
    match goal with
    | |- Ok (?l, ?c) = Ok (lines, code) -> _ =>
        intros H; assert (Hl : lines = l) by congruence;
        assert (Hc : code = c) by congruence; clear H; subst lines code
    end.
    eexists. split; [reflexivity|]. split; [|congruence].
    right. right. right. eauto.
Qed.

Lemma main_prints_one_line_witness :
  exists line, [lit "CRITICAL: failed: sshd.service "] = [line].
Proof.
  destruct (main_prints_one_line
              (answering "sshd.service loaded failed failed")
              {| check_all := false; critical_units := [lit "sshd.service"];
                 ignored_units := [] |}
              [lit "CRITICAL: failed: sshd.service "] 2 eq_refl)
    as (line & Hline & _).
  exists line. exact Hline.
Defined.

(** X8.  With no critical unit named, [process] puts nothing in
    [criticals] and [main] never reports CRITICAL: whenever it returns, its
    exit status is 0, 1 or 3. *)
Theorem no_critical_units_no_critical :
  forall (sys : list str -> result bytes) (args : Args),
    critical_units args = [] ->
    (forall output criticals warnings,
        process sys output args = Ok (criticals, warnings) ->
        criticals = [])
    /\ (forall lines code,
          main sys args = Ok (lines, code) ->
          code = 0 \/ code = 1 \/ code = 3).
Proof.
  intros sys args Hnone.
  assert (Hempty : forall output criticals warnings,
             process sys output args = Ok (criticals, warnings) ->
             criticals = []).
  { intros output criticals warnings Hprocess.
    apply process_names_tokens in Hprocess as [_ Hcriticals].
    destruct Hcriticals as [|f criticals (_ & Hmatch & _) _]; [reflexivity|].
    rewrite Hnone in Hmatch. discriminate Hmatch. }
  split; [exact Hempty|].
  intros lines code. rewrite main_cases.
  destruct (sys (split None (list_units_command args))) as [raw|e].
  - destruct (decode raw) as [output|e]; [|discriminate].
    destruct (process sys output args) as [[criticals warnings]|e]
      eqn:Hprocess; [|discriminate].
    rewrite (Hempty _ _ _ Hprocess).
    destruct warnings; intros H; assert (Hc : code = 1 \/ code = 0)
      by (first [left; congruence | right; congruence]); tauto.
  - destruct e; try discriminate. intros H.
    assert (Hc : code = 3) by congruence. tauto.
Qed.

Lemma no_critical_units_no_critical_witness :
  process (answering "") (lit "cron.service loaded failed failed")
    {| check_all := false; critical_units := []; ignored_units := [] |}
  = Ok ([], [(failed, lit "cron.service")])
  /\ (1 = 0 \/ 1 = 1 \/ 1 = 3).
Proof.
  split; [reflexivity|].
  exact (proj2 (no_critical_units_no_critical
                  (answering "cron.service loaded failed failed")
                  {| check_all := false; critical_units := [];
                     ignored_units := [] |}
                  eq_refl)
           [lit "WARNING: failed: cron.service "] 1 eq_refl).
Defined.

(** X9.  In an environment whose commands fail by their exit status only,
    an exception that ends [main] is [UnicodeDecodeError] (the listing is
    not UTF-8), [IndexError] or [TypeError] (a line of fewer than four
    fields) or [ValueError] (an exit status that is no integer); it is never
    [KeyError], so the lookup in [problem_names] never misses, and never
    [CalledProcessError]. *)
Theorem main_raises_only :
  forall (sys : list str -> result bytes) (args : Args) (e : exn),
    fails_by_status sys ->
    main sys args = Raise e ->
    e = UnicodeDecodeError \/ e = IndexError \/ e = TypeError
    \/ e = ValueError.
Proof.
  intros sys args e Hsys. rewrite main_cases.
  destruct (sys (split None (list_units_command args))) as [raw|e']
    eqn:Hlisting.
  - destruct (decode raw) as [output|e']; [|intros [= <-]; auto].
    destruct (process sys output args) as [[criticals warnings]|e']
      eqn:Hprocess; [discriminate|].
    intros [= ->]. right.
    exact (process_loop_raises _ _ _ _ Hsys _ Hprocess).
  - destruct (Hsys _ _ Hlisting) as [text ->]. discriminate.
Qed.

Lemma main_raises_only_witness :
  IndexError = UnicodeDecodeError \/ IndexError = IndexError
  \/ IndexError = TypeError \/ IndexError = ValueError.
Proof.
  refine (main_raises_only (answering nl)
            {| check_all := true; critical_units := []; ignored_units := [] |}
            IndexError _ eq_refl).
  intros command e H. discriminate H.
Defined.
